(** * Mirrored character table of the font layout engine

    Shallow embedding of
    [jdk/src/share/native/sun/font/layout/MirroredCharData.cpp]:
    the two parallel constant arrays [DefaultCharMapper::mirroredChars]
    and [DefaultCharMapper::srahCderorrim] and the entry count
    [DefaultCharMapper::mirroredCharsCount].  An [LEUnicode32] is a 32-bit
    unsigned value and an [le_int32] a 32-bit signed one; both are read
    as [Z], and the range facts are proved about the data. *)

From Equations Require Import Equations.
From Stdlib Require Import ZArith List Bool Lia Sorted Permutation.
Import ListNotations.

Local Open Scope Z_scope.

Module DefaultCharMapper.

(** [LETypes.h] is not part of the data file; its two typedefs used
    here name fixed-width integers. *)
Abbreviation LEUnicode32 := Z (only parsing).
Abbreviation le_int32 := Z (only parsing).

(** [const LEUnicode32 DefaultCharMapper::mirroredChars[]] (source lines 39-82). *)
Definition mirroredChars : list LEUnicode32 := [
    0x0028; 0x0029; 0x003C; 0x003E; 0x005B; 0x005D; 0x007B; 0x007D;
    0x00AB; 0x00BB; 0x2039; 0x203A; 0x2045; 0x2046; 0x207D; 0x207E;
    0x208D; 0x208E; 0x2208; 0x2209; 0x220A; 0x220B; 0x220C; 0x220D;
    0x2215; 0x223C; 0x223D; 0x2243; 0x2252; 0x2253; 0x2254; 0x2255;
    0x2264; 0x2265; 0x2266; 0x2267; 0x2268; 0x2269; 0x226A; 0x226B;
    0x226E; 0x226F; 0x2270; 0x2271; 0x2272; 0x2273; 0x2274; 0x2275;
    0x2276; 0x2277; 0x2278; 0x2279; 0x227A; 0x227B; 0x227C; 0x227D;
    0x227E; 0x227F; 0x2280; 0x2281; 0x2282; 0x2283; 0x2284; 0x2285;
    0x2286; 0x2287; 0x2288; 0x2289; 0x228A; 0x228B; 0x228F; 0x2290;
    0x2291; 0x2292; 0x2298; 0x22A2; 0x22A3; 0x22A6; 0x22A8; 0x22A9;
    0x22AB; 0x22B0; 0x22B1; 0x22B2; 0x22B3; 0x22B4; 0x22B5; 0x22B6;
    0x22B7; 0x22C9; 0x22CA; 0x22CB; 0x22CC; 0x22CD; 0x22D0; 0x22D1;
    0x22D6; 0x22D7; 0x22D8; 0x22D9; 0x22DA; 0x22DB; 0x22DC; 0x22DD;
    0x22DE; 0x22DF; 0x22E0; 0x22E1; 0x22E2; 0x22E3; 0x22E4; 0x22E5;
    0x22E6; 0x22E7; 0x22E8; 0x22E9; 0x22EA; 0x22EB; 0x22EC; 0x22ED;
    0x22F0; 0x22F1; 0x22F2; 0x22F3; 0x22F4; 0x22F6; 0x22F7; 0x22FA;
    0x22FB; 0x22FC; 0x22FD; 0x22FE; 0x2308; 0x2309; 0x230A; 0x230B;
    0x2329; 0x232A; 0x2768; 0x2769; 0x276A; 0x276B; 0x276C; 0x276D;
    0x276E; 0x276F; 0x2770; 0x2771; 0x2772; 0x2773; 0x2774; 0x2775;
    0x27C3; 0x27C4; 0x27C5; 0x27C6; 0x27D5; 0x27D6; 0x27DD; 0x27DE;
    0x27E2; 0x27E3; 0x27E4; 0x27E5; 0x27E6; 0x27E7; 0x27E8; 0x27E9;
    0x27EA; 0x27EB; 0x2983; 0x2984; 0x2985; 0x2986; 0x2987; 0x2988;
    0x2989; 0x298A; 0x298B; 0x298C; 0x298D; 0x298E; 0x298F; 0x2990;
    0x2991; 0x2992; 0x2993; 0x2994; 0x2995; 0x2996; 0x2997; 0x2998;
    0x29B8; 0x29C0; 0x29C1; 0x29C4; 0x29C5; 0x29CF; 0x29D0; 0x29D1;
    0x29D2; 0x29D4; 0x29D5; 0x29D8; 0x29D9; 0x29DA; 0x29DB; 0x29F5;
    0x29F8; 0x29F9; 0x29FC; 0x29FD; 0x2A2B; 0x2A2C; 0x2A2D; 0x2A2E;
    0x2A34; 0x2A35; 0x2A3C; 0x2A3D; 0x2A64; 0x2A65; 0x2A79; 0x2A7A;
    0x2A7D; 0x2A7E; 0x2A7F; 0x2A80; 0x2A81; 0x2A82; 0x2A83; 0x2A84;
    0x2A8B; 0x2A8C; 0x2A91; 0x2A92; 0x2A93; 0x2A94; 0x2A95; 0x2A96;
    0x2A97; 0x2A98; 0x2A99; 0x2A9A; 0x2A9B; 0x2A9C; 0x2AA1; 0x2AA2;
    0x2AA6; 0x2AA7; 0x2AA8; 0x2AA9; 0x2AAA; 0x2AAB; 0x2AAC; 0x2AAD;
    0x2AAF; 0x2AB0; 0x2AB3; 0x2AB4; 0x2ABB; 0x2ABC; 0x2ABD; 0x2ABE;
    0x2ABF; 0x2AC0; 0x2AC1; 0x2AC2; 0x2AC3; 0x2AC4; 0x2AC5; 0x2AC6;
    0x2ACD; 0x2ACE; 0x2ACF; 0x2AD0; 0x2AD1; 0x2AD2; 0x2AD3; 0x2AD4;
    0x2AD5; 0x2AD6; 0x2ADE; 0x2AE3; 0x2AE4; 0x2AE5; 0x2AEC; 0x2AED;
    0x2AF7; 0x2AF8; 0x2AF9; 0x2AFA; 0x2E02; 0x2E03; 0x2E04; 0x2E05;
    0x2E09; 0x2E0A; 0x2E0C; 0x2E0D; 0x2E1C; 0x2E1D; 0x3008; 0x3009;
    0x300A; 0x300B; 0x300C; 0x300D; 0x300E; 0x300F; 0x3010; 0x3011;
    0x3014; 0x3015; 0x3016; 0x3017; 0x3018; 0x3019; 0x301A; 0x301B;
    0xFF08; 0xFF09; 0xFF1C; 0xFF1E; 0xFF3B; 0xFF3D; 0xFF5B; 0xFF5D;
    0xFF5F; 0xFF60; 0xFF62; 0xFF63
  ].

(** [const LEUnicode32 DefaultCharMapper::srahCderorrim[]] (source lines 84-127). *)
Definition srahCderorrim : list LEUnicode32 := [
    0x0029; 0x0028; 0x003E; 0x003C; 0x005D; 0x005B; 0x007D; 0x007B;
    0x00BB; 0x00AB; 0x203A; 0x2039; 0x2046; 0x2045; 0x207E; 0x207D;
    0x208E; 0x208D; 0x220B; 0x220C; 0x220D; 0x2208; 0x2209; 0x220A;
    0x29F5; 0x223D; 0x223C; 0x22CD; 0x2253; 0x2252; 0x2255; 0x2254;
    0x2265; 0x2264; 0x2267; 0x2266; 0x2269; 0x2268; 0x226B; 0x226A;
    0x226F; 0x226E; 0x2271; 0x2270; 0x2273; 0x2272; 0x2275; 0x2274;
    0x2277; 0x2276; 0x2279; 0x2278; 0x227B; 0x227A; 0x227D; 0x227C;
    0x227F; 0x227E; 0x2281; 0x2280; 0x2283; 0x2282; 0x2285; 0x2284;
    0x2287; 0x2286; 0x2289; 0x2288; 0x228B; 0x228A; 0x2290; 0x228F;
    0x2292; 0x2291; 0x29B8; 0x22A3; 0x22A2; 0x2ADE; 0x2AE4; 0x2AE3;
    0x2AE5; 0x22B1; 0x22B0; 0x22B3; 0x22B2; 0x22B5; 0x22B4; 0x22B7;
    0x22B6; 0x22CA; 0x22C9; 0x22CC; 0x22CB; 0x2243; 0x22D1; 0x22D0;
    0x22D7; 0x22D6; 0x22D9; 0x22D8; 0x22DB; 0x22DA; 0x22DD; 0x22DC;
    0x22DF; 0x22DE; 0x22E1; 0x22E0; 0x22E3; 0x22E2; 0x22E5; 0x22E4;
    0x22E7; 0x22E6; 0x22E9; 0x22E8; 0x22EB; 0x22EA; 0x22ED; 0x22EC;
    0x22F1; 0x22F0; 0x22FA; 0x22FB; 0x22FC; 0x22FD; 0x22FE; 0x22F2;
    0x22F3; 0x22F4; 0x22F6; 0x22F7; 0x2309; 0x2308; 0x230B; 0x230A;
    0x232A; 0x2329; 0x2769; 0x2768; 0x276B; 0x276A; 0x276D; 0x276C;
    0x276F; 0x276E; 0x2771; 0x2770; 0x2773; 0x2772; 0x2775; 0x2774;
    0x27C4; 0x27C3; 0x27C6; 0x27C5; 0x27D6; 0x27D5; 0x27DE; 0x27DD;
    0x27E3; 0x27E2; 0x27E5; 0x27E4; 0x27E7; 0x27E6; 0x27E9; 0x27E8;
    0x27EB; 0x27EA; 0x2984; 0x2983; 0x2986; 0x2985; 0x2988; 0x2987;
    0x298A; 0x2989; 0x298C; 0x298B; 0x2990; 0x298F; 0x298E; 0x298D;
    0x2992; 0x2991; 0x2994; 0x2993; 0x2996; 0x2995; 0x2998; 0x2997;
    0x2298; 0x29C1; 0x29C0; 0x29C5; 0x29C4; 0x29D0; 0x29CF; 0x29D2;
    0x29D1; 0x29D5; 0x29D4; 0x29D9; 0x29D8; 0x29DB; 0x29DA; 0x2215;
    0x29F9; 0x29F8; 0x29FD; 0x29FC; 0x2A2C; 0x2A2B; 0x2A2E; 0x2A2D;
    0x2A35; 0x2A34; 0x2A3D; 0x2A3C; 0x2A65; 0x2A64; 0x2A7A; 0x2A79;
    0x2A7E; 0x2A7D; 0x2A80; 0x2A7F; 0x2A82; 0x2A81; 0x2A84; 0x2A83;
    0x2A8C; 0x2A8B; 0x2A92; 0x2A91; 0x2A94; 0x2A93; 0x2A96; 0x2A95;
    0x2A98; 0x2A97; 0x2A9A; 0x2A99; 0x2A9C; 0x2A9B; 0x2AA2; 0x2AA1;
    0x2AA7; 0x2AA6; 0x2AA9; 0x2AA8; 0x2AAB; 0x2AAA; 0x2AAD; 0x2AAC;
    0x2AB0; 0x2AAF; 0x2AB4; 0x2AB3; 0x2ABC; 0x2ABB; 0x2ABE; 0x2ABD;
    0x2AC0; 0x2ABF; 0x2AC2; 0x2AC1; 0x2AC4; 0x2AC3; 0x2AC6; 0x2AC5;
    0x2ACE; 0x2ACD; 0x2AD0; 0x2ACF; 0x2AD2; 0x2AD1; 0x2AD4; 0x2AD3;
    0x2AD6; 0x2AD5; 0x22A6; 0x22A9; 0x22A8; 0x22AB; 0x2AED; 0x2AEC;
    0x2AF8; 0x2AF7; 0x2AFA; 0x2AF9; 0x2E03; 0x2E02; 0x2E05; 0x2E04;
    0x2E0A; 0x2E09; 0x2E0D; 0x2E0C; 0x2E1D; 0x2E1C; 0x3009; 0x3008;
    0x300B; 0x300A; 0x300D; 0x300C; 0x300F; 0x300E; 0x3011; 0x3010;
    0x3015; 0x3014; 0x3017; 0x3016; 0x3019; 0x3018; 0x301B; 0x301A;
    0xFF09; 0xFF08; 0xFF1E; 0xFF1C; 0xFF3D; 0xFF3B; 0xFF5D; 0xFF5B;
    0xFF60; 0xFF5F; 0xFF63; 0xFF62
  ].

(** [const le_int32 DefaultCharMapper::mirroredCharsCount = 332;] *)
Definition mirroredCharsCount : le_int32 := 332.

End DefaultCharMapper.

(** ** The lookup consumer *)

Module Lookup.

Import DefaultCharMapper.

(** Probe position of one binary-search step on the half-open index
    range [lo, hi). *)
Definition midpoint (lo hi : nat) : nat := (lo + (hi - lo) / 2)%nat.

(** Modelled from the spec: the code that consults the table (the
    character mapper's lookup and the search routine it calls) is not
    part of the data file.  Section 4.1 fixes the algorithm as a
    "binary search over the ascending [source] array"; [search] is that
    search on the index range [lo, hi), answering the index at which
    [c] is stored, if any.  The recursion is on the width of the range. *)
Equations? search (arr : list LEUnicode32) (c : LEUnicode32) (lo hi : nat)
  : option nat by wf (hi - lo)%nat lt :=
  search arr c lo hi with lt_dec lo hi := {
    | right _ := None
    | left _ with nth_error arr (midpoint lo hi) := {
        | None := None
        | Some v with c ?= v := {
            | Eq := Some (midpoint lo hi)
            | Lt := search arr c lo (midpoint lo hi)
            | Gt := search arr c (S (midpoint lo hi)) hi } } }.
Proof.
  all: unfold midpoint;
    match goal with |- context [(?w / 2)%nat] =>
      pose proof (Nat.div_lt w 2) end; lia.
Qed.

(** Modelled from the spec: index of [code] in the [source] column, by
    binary search over the first [mirroredCharsCount] entries. *)
Definition indexOf (code : LEUnicode32) : option nat :=
  search mirroredChars code 0 (Z.to_nat mirroredCharsCount).

(** Modelled from the spec: [mirrorOf(code) -> Option<CodePoint>] of
    section 4.1, "returns the mirror of [code] if present, else the
    no-mapping result": the entry of [srahCderorrim] at the index where
    [code] sits in [mirroredChars]. *)
Definition mirrorOf (code : LEUnicode32) : option LEUnicode32 :=
  match indexOf code with
  | Some i => nth_error srahCderorrim i
  | None => None
  end.

(** Modelled from the spec: [isMirrored(code) -> bool] of section 4.1,
    answered by the same search. *)
Definition isMirrored (code : LEUnicode32) : bool :=
  match indexOf code with
  | Some _ => true
  | None => false
  end.

(** Modelled from the spec: the reference lookup, absent from the data
    file like the search: a naive left-to-right scan of a list of
    [(source, mirror)] pairs, answering the mirror of the first pair
    whose source is [code]. *)
Fixpoint scan (code : LEUnicode32) (entries : list (LEUnicode32 * LEUnicode32))
  : option LEUnicode32 :=
  match entries with
  | [] => None
  | (source, mirror) :: rest =>
      if code =? source then Some mirror else scan code rest
  end.

(** Modelled from the spec: the table as section 3 describes it, the
    sequence of [MirrorEntry] pairs; row [i] pairs [mirroredChars[i]]
    with [srahCderorrim[i]]. *)
Definition entries : list (LEUnicode32 * LEUnicode32) :=
  combine mirroredChars srahCderorrim.

(** Modelled from the spec: [mirrorOf] answered by the reference scan
    instead of the binary search. *)
Definition mirrorOf_scan (code : LEUnicode32) : option LEUnicode32 :=
  scan code entries.

End Lookup.

Import DefaultCharMapper Lookup.

(** ** Order and integrity checks *)

(** An array is sorted by [R] when [R] relates the entry at any position
    to the entry at any later position. *)
Definition sorted_by (R : Z -> Z -> Prop) (l : list Z) : Prop :=
  forall i j a b, (i < j)%nat ->
    nth_error l i = Some a -> nth_error l j = Some b -> R a b.

(** Strict ascent, the table's invariant on the [source] column. *)
Definition ascending (l : list Z) : Prop := sorted_by Z.lt l.

(** Adjacent entries increase strictly. *)
Fixpoint ascendingb (l : list Z) : bool :=
  match l with
  | x :: (y :: _) as rest => (x <? y) && ascendingb rest
  | _ => true
  end.

(** The reverse of every row is found by scanning the table. *)
Definition reverse_rows_present : bool :=
  forallb (fun '(a, b) =>
             match scan b entries with
             | Some a' => a' =? a
             | None => false
             end) entries.

(** Every row maps a code point to a different one, and both code points
    fit in 16 bits. *)
Definition rows_proper_and_bmp : bool :=
  forallb (fun '(a, b) =>
             negb (a =? b) &&
             ((0 <=? a) && (a <=? 0xFFFF)) &&
             ((0 <=? b) && (b <=? 0xFFFF))) entries.

(** The two blocks of code points the table draws from: 0x0028..0x301B
    (ASCII and Latin-1 brackets, mathematical operators, CJK brackets) and
    0xFF08..0xFF63 (fullwidth and halfwidth forms). *)
Definition in_mirror_blocks (c : Z) : bool :=
  ((0x0028 <=? c) && (c <=? 0x301B)) || ((0xFF08 <=? c) && (c <=? 0xFF63)).

Definition rows_in_mirror_blocks : bool :=
  forallb (fun '(a, b) => in_mirror_blocks a && in_mirror_blocks b) entries.

Ltac by_evaluation := vm_compute; reflexivity.

(** ** Correctness of the binary search on a strictly ascending array *)

Lemma midpoint_bounds lo hi :
  (lo < hi)%nat -> (lo <= midpoint lo hi < hi)%nat.
Proof.
  intros Hlt. unfold midpoint.
  pose proof (Nat.div_lt (hi - lo) 2). lia.
Qed.

Section SearchCorrect.

Variable arr : list Z.

Lemma search_found c lo hi i :
  search arr c lo hi = Some i ->
  (lo <= i < hi)%nat /\ nth_error arr i = Some c.
Proof.
  funelim (search arr c lo hi); intros Hres; try discriminate.
  - (* the probe hits *)
    injection Hres as <-.
    match goal with H : (c ?= _) = Eq |- _ => apply Z.compare_eq in H; subst end.
    split; [apply midpoint_bounds|]; assumption.
  - (* continue to the left of the probe *)
    pose proof (midpoint_bounds lo hi l).
    match goal with IH : forall i, _ -> _ /\ _ |- _ => destruct (IH _ Hres) end.
    split; [lia | assumption].
  - (* continue to the right of the probe *)
    pose proof (midpoint_bounds lo hi l).
    match goal with IH : forall i, _ -> _ /\ _ |- _ => destruct (IH _ Hres) end.
    split; [lia | assumption].
Qed.

Hypothesis arr_ascending : ascending arr.

Lemma search_missed c lo hi :
  (hi <= length arr)%nat ->
  search arr c lo hi = None ->
  forall i, (lo <= i < hi)%nat -> nth_error arr i <> Some c.
Proof.
  funelim (search arr c lo hi); intros Hhi Hres i Hi Hnth; try discriminate.
  - (* empty range *) lia.
  - (* the probe is inside the array *)
    pose proof (midpoint_bounds lo hi l).
    match goal with H : nth_error _ _ = None |- _ =>
      apply nth_error_None in H end.
    lia.
  - (* c < arr[mid]: nothing at or right of the probe equals c *)
    pose proof (midpoint_bounds lo hi l) as Hmid.
    match goal with H : nth_error arr (midpoint lo hi) = Some _ |- _ =>
      rename H into Hprobe end.
    match goal with H : (c ?= _) = Lt |- _ => apply -> Z.compare_lt_iff in H end.
    destruct (Nat.lt_ge_cases i (midpoint lo hi)) as [Hlt|Hge].
    + match goal with IH : _ -> _ = None -> _ |- _ =>
        apply (IH ltac:(lia) Hres i ltac:(lia) Hnth) end.
    + destruct (Nat.eq_dec i (midpoint lo hi)) as [->|Hne].
      * rewrite Hnth in Hprobe. injection Hprobe as <-. lia.
      * pose proof (arr_ascending (midpoint lo hi) i v c ltac:(lia) Hprobe Hnth).
        lia.
  - (* arr[mid] < c: nothing at or left of the probe equals c *)
    pose proof (midpoint_bounds lo hi l) as Hmid.
    match goal with H : nth_error arr (midpoint lo hi) = Some _ |- _ =>
      rename H into Hprobe end.
    match goal with H : (c ?= _) = Gt |- _ => apply -> Z.compare_gt_iff in H end.
    destruct (Nat.lt_ge_cases (midpoint lo hi) i) as [Hlt|Hge].
    + match goal with IH : _ -> _ = None -> _ |- _ =>
        apply (IH ltac:(lia) Hres i ltac:(lia) Hnth) end.
    + destruct (Nat.eq_dec i (midpoint lo hi)) as [->|Hne].
      * rewrite Hnth in Hprobe. injection Hprobe as <-. lia.
      * pose proof (arr_ascending i (midpoint lo hi) c v ltac:(lia) Hnth Hprobe).
        lia.
Qed.

End SearchCorrect.

(** ** The reference scan over parallel columns *)

Section ScanCorrect.

Variable c : Z.

Lemma scan_found (a b : list Z) m :
  scan c (combine a b) = Some m ->
  exists i, nth_error a i = Some c /\ nth_error b i = Some m.
Proof.
  revert b. induction a as [|x a' IH]; intros [|y b']; simpl; try discriminate.
  destruct (c =? x) eqn:E.
  - intros [= <-]. apply Z.eqb_eq in E. subst x. now exists 0%nat.
  - intros Hrest. destruct (IH _ Hrest) as (i & Ha & Hb). now exists (S i).
Qed.

Lemma scan_missed (a b : list Z) :
  (length a <= length b)%nat ->
  scan c (combine a b) = None ->
  forall i, nth_error a i <> Some c.
Proof.
  revert b. induction a as [|x a' IH]; intros b Hlen Hres i.
  - now destruct i.
  - destruct b as [|y b']; simpl in *; [lia|].
    destruct (c =? x) eqn:E; [discriminate|].
    apply Z.eqb_neq in E. destruct i as [|i]; simpl.
    + congruence.
    + apply (IH b'); [lia | assumption].
Qed.

End ScanCorrect.

(** ** Checking a table by evaluation *)


Lemma ascendingb_Sorted l : ascendingb l = true -> Sorted Z.lt l.
Proof.
  induction l as [|x [|y t] IH]; intros Hb.
  - constructor.
  - repeat constructor.
  - cbn [ascendingb] in Hb. apply andb_prop in Hb as [Hxy Hrest].
    constructor; [apply IH, Hrest | constructor; now apply Z.ltb_lt].
Qed.

Lemma StronglySorted_ascending l : StronglySorted Z.lt l -> ascending l.
Proof.
  induction 1 as [|x t Hsorted IH Hall]; intros i j a b Hij Hi Hj.
  - now destruct i.
  - destruct j as [|j]; [lia|]. cbn in Hj.
    destruct i as [|i]; cbn in Hi.
    + injection Hi as <-. rewrite Forall_forall in Hall.
      eapply Hall, nth_error_In, Hj.
    + apply (IH i j); [lia | assumption | assumption].
Qed.

Lemma ascendingb_sound l : ascendingb l = true -> ascending l.
Proof.
  intros Hb. apply StronglySorted_ascending, Sorted_StronglySorted.
  - exact Z.lt_trans.
  - now apply ascendingb_Sorted.
Qed.

Lemma ascending_position l i j c :
  ascending l -> nth_error l i = Some c -> nth_error l j = Some c -> i = j.
Proof.
  intros Hasc Hi Hj.
  destruct (Nat.lt_trichotomy i j) as [Hlt|[Heq|Hgt]]; [|assumption|].
  - pose proof (Hasc i j c c Hlt Hi Hj). lia.
  - pose proof (Hasc j i c c Hgt Hj Hi). lia.
Qed.

(** A property checked at every index below [n]. *)
Lemma forallb_below (p : nat -> bool) n :
  forallb p (seq 0 n) = true -> forall i, (i < n)%nat -> p i = true.
Proof.
  intros Hall i Hi. rewrite forallb_forall in Hall.
  apply Hall, in_seq. lia.
Qed.

Lemma existsb_below (p : nat -> bool) n :
  existsb p (seq 0 n) = true -> exists j, (j < n)%nat /\ p j = true.
Proof.
  intros Hex. apply existsb_exists in Hex as (j & Hin & Hp).
  apply in_seq in Hin. exists j. split; [lia | assumption].
Qed.

Lemma memb_false_not_In c l : existsb (Z.eqb c) l = false -> ~ In c l.
Proof.
  intros Hb Hin.
  assert (existsb (Z.eqb c) l = true) as Ht
    by (apply existsb_exists; exists c; split; [assumption | apply Z.eqb_refl]).
  congruence.
Qed.

Lemma In_combine_nth_error (l l' : list Z) a b :
  In (a, b) (combine l l') <->
  exists i, nth_error l i = Some a /\ nth_error l' i = Some b.
Proof.
  revert l'. induction l as [|x t IH]; intros [|y t']; cbn [combine].
  - split; [intros [] | intros ([|i] & Ha & _); discriminate].
  - split; [intros [] | intros ([|i] & Ha & _); discriminate].
  - split; [intros [] | intros ([|i] & _ & Hb); discriminate].
  - split.
    + intros [[= <- <-]|Hin]; [now exists 0%nat|].
      apply IH in Hin as (i & Ha & Hb). now exists (S i).
    + intros ([|i] & Ha & Hb); cbn in Ha, Hb.
      * left. congruence.
      * right. apply IH. now exists i.
Qed.

Lemma ascending_NoDup l : ascending l -> NoDup l.
Proof.
  intros Hasc. apply NoDup_nth_error. intros i j Hi Heq.
  destruct (nth_error l i) as [c|] eqn:Hc.
  - apply (ascending_position l i j c); auto.
  - apply nth_error_None in Hc. lia.
Qed.

(** ** Facts about the shipped table *)

Lemma mirroredChars_length : length mirroredChars = 332%nat.
Proof. by_evaluation. Qed.

Lemma srahCderorrim_length : length srahCderorrim = 332%nat.
Proof. by_evaluation. Qed.

Lemma count_entries : Z.to_nat mirroredCharsCount = 332%nat.
Proof. by_evaluation. Qed.

Lemma mirroredChars_ascending : ascending mirroredChars.
Proof. apply ascendingb_sound. by_evaluation. Qed.

(** Row [i] of the table pairs the two columns at index [i]. *)
Lemma In_entries a b :
  In (a, b) entries <->
  exists i, nth_error mirroredChars i = Some a /\
            nth_error srahCderorrim i = Some b.
Proof. apply In_combine_nth_error. Qed.

Lemma entries_row i :
  (i < 332)%nat -> In (nth i mirroredChars 0, nth i srahCderorrim 0) entries.
Proof.
  intros Hi. apply In_entries. exists i.
  split; apply nth_error_nth';
    [rewrite mirroredChars_length | rewrite srahCderorrim_length]; exact Hi.
Qed.

Lemma row_of_entry a b :
  In (a, b) entries ->
  exists i, (i < 332)%nat /\
    nth i mirroredChars 0 = a /\ nth i srahCderorrim 0 = b.
Proof.
  intros Hin. apply In_entries in Hin as (i & Ha & Hb).
  exists i. split; [|split; now apply nth_error_nth].
  rewrite <- mirroredChars_length. apply nth_error_Some. congruence.
Qed.


Lemma entries_involutive a b : In (a, b) entries -> In (b, a) entries.
Proof.
  intros Hin.
  assert (reverse_rows_present = true) as Hall by by_evaluation.
  unfold reverse_rows_present in Hall. rewrite forallb_forall in Hall.
  specialize (Hall _ Hin). cbn beta iota in Hall.
  destruct (scan b entries) as [a'|] eqn:Hscan; [|discriminate].
  apply Z.eqb_eq in Hall. subst a'.
  apply scan_found in Hscan. now apply In_entries.
Qed.

(** The search finds exactly the position at which a code point sits. *)
Lemma indexOf_spec c i :
  indexOf c = Some i <-> nth_error mirroredChars i = Some c.
Proof.
  unfold indexOf. rewrite count_entries. split.
  - intros Hres. now apply search_found in Hres.
  - intros Hnth.
    assert (i < 332)%nat as Hi
      by (rewrite <- mirroredChars_length; apply nth_error_Some; congruence).
    destruct (search mirroredChars c 0 332) as [j|] eqn:Hres.
    + apply search_found in Hres as [_ Hj].
      f_equal. exact (ascending_position _ _ _ _ mirroredChars_ascending Hj Hnth).
    + exfalso.
      refine (search_missed _ mirroredChars_ascending c 0 332 _ Hres i _ Hnth).
      * rewrite mirroredChars_length. lia.
      * lia.
Qed.

Lemma mirrorOf_spec c m : mirrorOf c = Some m <-> In (c, m) entries.
Proof.
  rewrite In_entries. unfold mirrorOf. split.
  - destruct (indexOf c) as [i|] eqn:Hidx; [|discriminate].
    intros Hm. exists i. split; [now apply indexOf_spec | assumption].
  - intros (i & Hc & Hm). apply indexOf_spec in Hc. now rewrite Hc.
Qed.

(** ** Properties of the table and of its lookups *)

(** C1: the source column [mirroredChars] is strictly increasing: for
    indices [i < j] among the 332 entries the entry at [i] is below the
    entry at [j]; hence equal entries sit at equal indices, that is,
    every source value occurs once. *)
Theorem mirroredChars_strictly_increasing (i j : nat) :
  (i < 332)%nat -> (j < 332)%nat ->
  ((i < j)%nat -> nth i mirroredChars 0 < nth j mirroredChars 0) /\
  (nth i mirroredChars 0 = nth j mirroredChars 0 -> i = j).
Proof.
  intros Hi Hj.
  assert (nth_error mirroredChars i = Some (nth i mirroredChars 0)) as Hni
    by (apply nth_error_nth'; rewrite mirroredChars_length; exact Hi).
  assert (nth_error mirroredChars j = Some (nth j mirroredChars 0)) as Hnj
    by (apply nth_error_nth'; rewrite mirroredChars_length; exact Hj).
  split.
  - intros Hij. exact (mirroredChars_ascending i j _ _ Hij Hni Hnj).
  - intros Heq. rewrite <- Heq in Hnj.
    exact (ascending_position _ _ _ _ mirroredChars_ascending Hni Hnj).
Qed.

Lemma mirroredChars_strictly_increasing_witness :
  nth 0 mirroredChars 0 < nth 1 mirroredChars 0.
Proof.
  refine (proj1 (mirroredChars_strictly_increasing 0 1 _ _) _); lia.
Defined.

(** C2: the table is involutive: for every index [i], with
    [a = mirroredChars[i]] and [b = srahCderorrim[i]], some index [j] has
    [mirroredChars[j] = b] and [srahCderorrim[j] = a]. *)
Theorem table_involutive (i : nat) :
  (i < 332)%nat ->
  exists j, (j < 332)%nat /\
    nth j mirroredChars 0 = nth i srahCderorrim 0 /\
    nth j srahCderorrim 0 = nth i mirroredChars 0.
Proof.
  intros Hi. apply row_of_entry, entries_involutive, entries_row, Hi.
Qed.

Lemma table_involutive_witness :
  exists j, (j < 332)%nat /\
    nth j mirroredChars 0 = nth 24 srahCderorrim 0 /\
    nth j srahCderorrim 0 = nth 24 mirroredChars 0.
Proof. apply (table_involutive 24). lia. Defined.

(** C3: round trip: for every code point [c] that occurs as a source,
    [mirrorOf c] is defined, and [mirrorOf] of that mirror is [c] again. *)
Theorem mirrorOf_round_trip (c : Z) :
  In c mirroredChars ->
  exists m, mirrorOf c = Some m /\ mirrorOf m = Some c.
Proof.
  intros Hin. apply In_nth_error in Hin as (i & Hc).
  assert (i < 332)%nat as Hi
    by (rewrite <- mirroredChars_length; apply nth_error_Some; congruence).
  pose proof (entries_row i Hi) as Hrow.
  rewrite (nth_error_nth _ _ 0 Hc) in Hrow.
  exists (nth i srahCderorrim 0). split; apply mirrorOf_spec.
  - exact Hrow.
  - apply entries_involutive, Hrow.
Qed.

Lemma mirrorOf_round_trip_witness :
  exists m, mirrorOf 0x2215 = Some m /\ mirrorOf m = Some 0x2215.
Proof.
  apply (mirrorOf_round_trip 0x2215).
  apply (nth_error_In mirroredChars 24). reflexivity.
Defined.

(** C4: the count field [mirroredCharsCount] is 332, and 332 is the
    number of elements of [mirroredChars] and of [srahCderorrim]. *)
Theorem mirroredCharsCount_is_length :
  mirroredCharsCount = 332 /\
  Z.of_nat (length mirroredChars) = mirroredCharsCount /\
  Z.of_nat (length srahCderorrim) = mirroredCharsCount.
Proof. repeat split; by_evaluation. Qed.

(** C5: a code point that is not a source in the table gets the no-mapping
    answer [None] from [mirrorOf]; the lookup is a total function into
    [option], so absence is an ordinary result. *)
Theorem mirrorOf_absent (c : Z) :
  ~ In c mirroredChars -> mirrorOf c = None.
Proof.
  intros Hout. destruct (mirrorOf c) as [m|] eqn:Hm; [|reflexivity].
  exfalso. apply Hout.
  apply mirrorOf_spec, In_entries in Hm as (i & Hc & _).
  exact (nth_error_In _ _ Hc).
Qed.

Lemma mirrorOf_absent_witness :
  ~ In 0x0041 mirroredChars /\ mirrorOf 0x0041 = None.
Proof.
  assert (~ In 0x0041 mirroredChars) as Hout
    by (apply memb_false_not_In; reflexivity).
  split; [exact Hout | exact (mirrorOf_absent 0x0041 Hout)].
Defined.

(** C6: [mirrorOf 0x0028] is [0x0029] and [mirrorOf 0x0029] is [0x0028]. *)
Theorem mirrorOf_parentheses :
  mirrorOf 0x0028 = Some 0x0029 /\ mirrorOf 0x0029 = Some 0x0028.
Proof. split; by_evaluation. Qed.

(** C7: [isMirrored c] is true exactly when [c] occurs as a source in
    [mirroredChars]; [isMirrored 0x2264] is true and [mirrorOf 0x2264] is
    [0x2265]. *)
Theorem isMirrored_less_equal :
  (forall c, isMirrored c = true <-> In c mirroredChars) /\
  isMirrored 0x2264 = true /\
  mirrorOf 0x2264 = Some 0x2265.
Proof.
  split; [|split; by_evaluation].
  intros c. unfold isMirrored. split.
  - destruct (indexOf c) as [i|] eqn:Hidx; [|discriminate].
    intros _. apply indexOf_spec in Hidx. exact (nth_error_In _ _ Hidx).
  - intros Hin. apply In_nth_error in Hin as (i & Hc).
    apply indexOf_spec in Hc. now rewrite Hc.
Qed.

(** C8: for every code point the binary-search lookup [mirrorOf] answers
    what the naive linear scan of the (source, mirror) pairs answers. *)
Theorem mirrorOf_refines_scan (c : Z) : mirrorOf c = mirrorOf_scan c.
Proof.
  unfold mirrorOf_scan.
  destruct (scan c entries) as [m|] eqn:Hscan.
  - apply mirrorOf_spec, In_entries. exact (scan_found c _ _ m Hscan).
  - destruct (mirrorOf c) as [m|] eqn:Hm; [|reflexivity].
    exfalso. apply mirrorOf_spec, In_entries in Hm as (i & Hc & _).
    refine (scan_missed c mirroredChars srahCderorrim _ Hscan i Hc).
    rewrite mirroredChars_length, srahCderorrim_length. lia.
Qed.

(** C9, as the code has it: [srahCderorrim] is the index-parallel mirror
    column of the forward table and is not itself sorted; it holds the
    same code points as [mirroredChars], rearranged, it is
    [mirroredChars] that is strictly ascending, and the mirror stored at
    any index [i] is itself a source, at some index [j], whose mirror is
    the source at [i]: a lookup in either direction searches
    [mirroredChars]. *)
Theorem srahCderorrim_permutes_mirroredChars :
  Permutation mirroredChars srahCderorrim /\
  sorted_by Z.lt mirroredChars /\
  (forall i, (i < 332)%nat ->
     exists j, (j < 332)%nat /\
       nth j mirroredChars 0 = nth i srahCderorrim 0 /\
       nth j srahCderorrim 0 = nth i mirroredChars 0).
Proof.
  split; [|split; [exact mirroredChars_ascending|]];
    [|intros i Hi; apply row_of_entry, entries_involutive, entries_row, Hi].
  apply NoDup_Permutation_bis.
  - apply ascending_NoDup, mirroredChars_ascending.
  - rewrite mirroredChars_length, srahCderorrim_length. lia.
  - intros a Hin. apply In_nth_error in Hin as (i & Ha).
    assert (i < 332)%nat as Hi
      by (rewrite <- mirroredChars_length; apply nth_error_Some; congruence).
    pose proof (entries_row i Hi) as Hrow.
    rewrite (nth_error_nth _ _ 0 Ha) in Hrow.
    apply entries_involutive, In_entries in Hrow as (j & _ & Hj).
    exact (nth_error_In _ _ Hj).
Qed.

(** C9 as stated fails: [srahCderorrim] is sorted in neither direction,
    not even weakly: it starts 0x0029, 0x0028, 0x003E. *)
Lemma srahCderorrim_not_sorted :
  ~ sorted_by Z.le srahCderorrim /\ ~ sorted_by Z.ge srahCderorrim.
Proof.
  split; intros Hsorted.
  - pose proof (Hsorted 0%nat 1%nat 0x0029 0x0028 ltac:(lia) eq_refl eq_refl).
    lia.
  - pose proof (Hsorted 1%nat 2%nat 0x0028 0x003E ltac:(lia) eq_refl eq_refl).
    lia.
Qed.


(** C10: at every index [i] among the 332 entries [mirroredChars[i]]
    differs from [srahCderorrim[i]], so no code point is mapped to itself,
    and every value of both arrays is at most 0xFFFF. *)
Theorem no_self_mirror_and_bmp (i : nat) :
  (i < 332)%nat ->
  nth i mirroredChars 0 <> nth i srahCderorrim 0 /\
  0 <= nth i mirroredChars 0 <= 0xFFFF /\
  0 <= nth i srahCderorrim 0 <= 0xFFFF.
Proof.
  intros Hi.
  assert (rows_proper_and_bmp = true) as Hall by by_evaluation.
  unfold rows_proper_and_bmp in Hall. rewrite forallb_forall in Hall.
  specialize (Hall _ (entries_row i Hi)). cbn beta iota in Hall.
  apply andb_prop in Hall as [Hall Hb]. apply andb_prop in Hall as [Hne Ha].
  apply andb_prop in Ha as [Ha0 Ha1]. apply andb_prop in Hb as [Hb0 Hb1].
  apply negb_true_iff, Z.eqb_neq in Hne.
  apply Z.leb_le in Ha0, Ha1, Hb0, Hb1.
  repeat split; assumption.
Qed.

Lemma no_self_mirror_and_bmp_witness :
  nth 331 mirroredChars 0 <> nth 331 srahCderorrim 0 /\
  0 <= nth 331 mirroredChars 0 <= 0xFFFF /\
  0 <= nth 331 srahCderorrim 0 <= 0xFFFF.
Proof. apply (no_self_mirror_and_bmp 331). lia. Defined.

(** ** Further properties of the two columns *)

Lemma source_index_unique i j :
  (i < 332)%nat -> (j < 332)%nat ->
  nth i mirroredChars 0 = nth j mirroredChars 0 -> i = j.
Proof.
  intros Hi Hj Heq.
  apply (ascending_position mirroredChars i j (nth i mirroredChars 0)
           mirroredChars_ascending).
  - apply nth_error_nth'. rewrite mirroredChars_length. exact Hi.
  - rewrite Heq. apply nth_error_nth'. rewrite mirroredChars_length. exact Hj.
Qed.

Lemma row_not_self_mirror i :
  (i < 332)%nat -> nth i mirroredChars 0 <> nth i srahCderorrim 0.
Proof.
  intros Hi.
  assert (rows_proper_and_bmp = true) as Hall by by_evaluation.
  unfold rows_proper_and_bmp in Hall. rewrite forallb_forall in Hall.
  specialize (Hall _ (entries_row i Hi)). cbn beta iota in Hall.
  apply andb_prop in Hall as [Hall _]. apply andb_prop in Hall as [Hne _].
  now apply negb_true_iff, Z.eqb_neq in Hne.
Qed.

(** The row that undoes row [i]: its source is the mirror of row [i] and
    its mirror is the source of row [i]. *)
Lemma partner_row i :
  (i < 332)%nat ->
  exists k, (k < 332)%nat /\
    nth k mirroredChars 0 = nth i srahCderorrim 0 /\
    nth k srahCderorrim 0 = nth i mirroredChars 0.
Proof.
  intros Hi. apply row_of_entry, entries_involutive, entries_row, Hi.
Qed.

(** X1: the rows pair up.  Whenever the source of row [j] is the mirror
    of row [i], the mirror of row [j] is the source of row [i], and [j]
    is another row than [i]: chaining two rows always leads back. *)
Theorem rows_pair_up (i j : nat) :
  (i < 332)%nat -> (j < 332)%nat ->
  nth j mirroredChars 0 = nth i srahCderorrim 0 ->
  nth j srahCderorrim 0 = nth i mirroredChars 0 /\ i <> j.
Proof.
  intros Hi Hj Hchain.
  destruct (partner_row i Hi) as (k & Hk & Hsrc & Hmir).
  assert (j = k) as -> by (apply source_index_unique; congruence).
  split; [exact Hmir|].
  intros ->. apply (row_not_self_mirror k Hk). congruence.
Qed.

Lemma rows_pair_up_witness :
  nth 207 srahCderorrim 0 = nth 24 mirroredChars 0 /\ 24%nat <> 207%nat.
Proof.
  apply (rows_pair_up 24 207); [lia | lia | reflexivity].
Defined.

(** X2: no two rows share a mirror: at different indices among the 332
    entries [srahCderorrim] holds different code points. *)
Theorem srahCderorrim_distinct (i j : nat) :
  (i < 332)%nat -> (j < 332)%nat -> i <> j ->
  nth i srahCderorrim 0 <> nth j srahCderorrim 0.
Proof.
  intros Hi Hj Hij Heq. apply Hij.
  destruct (partner_row i Hi) as (k & Hk & Hsrc & Hmir).
  destruct (partner_row j Hj) as (k' & Hk' & Hsrc' & Hmir').
  assert (k = k') as <- by (apply source_index_unique; congruence).
  apply source_index_unique; congruence.
Qed.

Lemma srahCderorrim_distinct_witness :
  nth 24 srahCderorrim 0 <> nth 207 srahCderorrim 0.
Proof. apply (srahCderorrim_distinct 24 207); lia. Defined.

(** X3: every code point of either column lies in 0x0028..0x301B or in
    0xFF08..0xFF63; a code point outside these two blocks, a surrogate
    (0xD800..0xDFFF) for one, occurs nowhere in the table. *)
Theorem columns_within_blocks (c : Z) :
  In c mirroredChars \/ In c srahCderorrim ->
  0x0028 <= c <= 0x301B \/ 0xFF08 <= c <= 0xFF63.
Proof.
  intros Hin.
  assert (in_mirror_blocks c = true) as Hblock.
  { assert (rows_in_mirror_blocks = true) as Hall by by_evaluation.
    unfold rows_in_mirror_blocks in Hall. rewrite forallb_forall in Hall.
    destruct Hin as [Hin|Hin]; apply In_nth_error in Hin as (i & Hc).
    - assert (i < 332)%nat as Hi
        by (rewrite <- mirroredChars_length; apply nth_error_Some; congruence).
      specialize (Hall _ (entries_row i Hi)). cbn beta iota in Hall.
      apply andb_prop in Hall as [Ha _].
      now rewrite (nth_error_nth _ _ 0 Hc) in Ha.
    - assert (i < 332)%nat as Hi
        by (rewrite <- srahCderorrim_length; apply nth_error_Some; congruence).
      specialize (Hall _ (entries_row i Hi)). cbn beta iota in Hall.
      apply andb_prop in Hall as [_ Hb].
      now rewrite (nth_error_nth _ _ 0 Hc) in Hb. }
  unfold in_mirror_blocks in Hblock.
  apply orb_prop in Hblock as [Hlow|Hhigh]; [left | right].
  - apply andb_prop in Hlow as [H0 H1]. apply Z.leb_le in H0, H1. lia.
  - apply andb_prop in Hhigh as [H0 H1]. apply Z.leb_le in H0, H1. lia.
Qed.

Lemma columns_within_blocks_witness :
  0x0028 <= 0xFF63 <= 0x301B \/ 0xFF08 <= 0xFF63 <= 0xFF63.
Proof.
  apply (columns_within_blocks 0xFF63).
  left. apply (nth_error_In mirroredChars 331). reflexivity.
Defined.
